(** * camlife: the photo map page ([src/app/[locale]/map/page.tsx])

    A shallow embedding of the [MapBox] component: the GeoJSON feature
    builder, the paint expressions of the three circle layers, the click
    handler that drives the popup, the theme effect on the two CSS
    variables, the map style and zoom selection and the callback ref that
    attaches the language control.

    JavaScript numbers are modelled by rationals ([Q]); every number the
    component computes with is a small integer or a ratio of two. *)

From Stdlib Require Import QArith Lqa Ascii String.
From stdpp Require Import gmap strings list fin_maps.

Open Scope string_scope.

(** ** JavaScript values and objects *)

Module JS.

(** The run-time values the component handles.  [JBuiltin n] is a reference
    to the built-in function or object that [Object.prototype] holds under
    the name [n]. *)
Inductive val :=
| JUndefined
| JNull
| JNum (q : Q)
| JStr (s : string)
| JBuiltin (name : string).

(** ToBoolean. *)
Definition truthy (v : val) : bool :=
  match v with
  | JUndefined | JNull => false
  | JNum q => negb (Qeq_bool q 0)
  | JStr s => negb (String.eqb s "")
  | JBuiltin _ => true
  end.

(** [a || b] *)
Definition or (a b : val) : val := if truthy a then a else b.

(** [a ?? b] *)
Definition nullish (a b : val) : val :=
  match a with
  | JUndefined | JNull => b
  | _ => a
  end.

(** The properties every ordinary object inherits from [Object.prototype]. *)
Definition ObjectPrototype : list string :=
  [ "constructor"; "__defineGetter__"; "__defineSetter__"; "hasOwnProperty";
    "__lookupGetter__"; "__lookupSetter__"; "isPrototypeOf";
    "propertyIsEnumerable"; "toString"; "valueOf"; "__proto__";
    "toLocaleString" ].

Definition inherited (key : string) : bool :=
  bool_decide (key ∈ ObjectPrototype).

(** [o[key]] on an object literal: own properties first, then the
    prototype, [undefined] when neither has the key. *)
Definition get (o : gmap string val) (key : string) : val :=
  match o !! key with
  | Some v => v
  | None => if inherited key then JBuiltin key else JUndefined
  end.

(** [o?.key] where [o] may be [null] or [undefined]. *)
Definition optGet (o : option (gmap string val)) (key : string) : val :=
  match o with
  | Some m => get m key
  | None => JUndefined
  end.

(** ToPropertyKey of a [string | undefined]. *)
Definition propertyKey (k : option string) : string :=
  match k with
  | Some s => s
  | None => "undefined"
  end.

(** [a[i]] on an array. *)
Definition index (a : list val) (i : nat) : val :=
  match a !! i with
  | Some v => v
  | None => JUndefined
  end.

(** A nullable number or string as a value. *)
Definition ofNum (n : option Q) : val :=
  match n with Some q => JNum q | None => JNull end.

Definition ofStr (s : option string) : val :=
  match s with Some x => JStr x | None => JNull end.

End JS.

Import JS.

(** ** GeoJSON *)

#[warnings="-register-all"] Inductive Geometry :=
| Point (coordinates : list val)
| MultiPoint (coordinates : list (list val))
| LineString (coordinates : list (list val))
| MultiLineString (coordinates : list (list (list val)))
| Polygon (coordinates : list (list (list val)))
| MultiPolygon (coordinates : list (list (list (list val))))
| GeometryCollection (geometries : list Geometry).

Definition isPoint (g : Geometry) : bool :=
  match g with Point _ => true | _ => false end.

Record Feature := {
feature_type : string;
geometry : Geometry;
properties : option (gmap string val)
}.

Record FeatureCollection := {
collection_type : string;
features : list Feature
}.

(** One row of [api.photos.getAllCoordinates]. *)
Record PhotoRecord := {
rec_longitude : option Q;
rec_latitude : option Q;
rec_url : string;
rec_blurData : option string;
rec_width : Q;
rec_height : Q
}.

Definition ofIndex (i : nat) : Q := inject_Z (Z.of_nat i).

(** The callback of [coordinates.map((coord, index) => ...)]. *)
Definition toFeature (index : nat) (coord : PhotoRecord) : Feature :=
{| feature_type := "Feature";
   geometry := Point [ofNum (rec_longitude coord); ofNum (rec_latitude coord)];
   properties := Some (<["id" := JNum (ofIndex index)]>
                      (<["url" := JStr (rec_url coord)]>
                      (<["blurData" := ofStr (rec_blurData coord)]>
                      (<["width" := JNum (rec_width coord)]>
                      (<["height" := JNum (rec_height coord)]> ∅))))) |}.

(** [geojsonData]: [null] while the query has no data, else the collection. *)
Definition geojsonData (coordinates : option (list PhotoRecord))
: option FeatureCollection :=
match coordinates with
| None => None
| Some coords =>
    Some {| collection_type := "FeatureCollection";
            features := imap toFeature coords |}
end.

Definition featureId (f : Feature) : val := optGet (properties f) "id".

(** ** Mapbox style expressions

  The paint properties of the layers are [interpolate] expressions of the
  Mapbox style language.  The component only builds them; what they mean
  is fixed by the style specification, which is embedded here for the one
  form the component uses: ["interpolate", ["linear"], input, x0, y0, ...]. *)

Module Mapbox.

Local Open Scope Q_scope.

Inductive Input :=
| Zoom                  (* ["zoom"] *)
| Get (key : string).   (* ["get", key] *)

Record Interpolate (A : Type) := {
  input : Input;
  stops : list (Q * A)
}.
Arguments input {A} _.
Arguments stops {A} _.

Definition labels {A} (e : Interpolate A) : list Q := (stops e).*1.

(** The domain of a ramp: its first and last stop inputs. *)
Definition domain {A} (e : Interpolate A) : option (Q * Q) :=
  match head (labels e), last (labels e) with
  | Some lo, Some hi => Some (lo, hi)
  | _, _ => None
  end.

(** Stop inputs have to be in strictly ascending order; the style
    validator rejects the expression otherwise. *)
Fixpoint ascending (ls : list Q) : bool :=
  match ls with
  | a :: (b :: _) as rest => negb (Qle_bool b a) && ascending rest
  | _ => true
  end.

Definition valid {A} (e : Interpolate A) : bool :=
  (2 <=? length (stops e))%nat && ascending (labels e).

(** Linear interpolation factor of [value] between two stop inputs. *)
Definition interpolationFactor (value lower upper : Q) : Q :=
  let difference := upper - lower in
  let progress := value - lower in
  if Qeq_bool difference 0 then 0 else progress / difference.

Definition number (a b t : Q) : Q := a * (1 - t) + b * t.

Section Evaluate.
Context {A : Type} (mix : A -> A -> Q -> A).

(** Walk to the pair of stops around [value] and mix their outputs. *)
Fixpoint between (value : Q) (lower : Q * A) (rest : list (Q * A)) : option A :=
  match rest with
  | [] => None
  | upper :: rest' =>
      if Qle_bool upper.1 value then between value upper rest'
      else Some (mix lower.2 upper.2
                     (interpolationFactor value lower.1 upper.1))
  end.

(** Values at or below the first stop take the first output, values at
    or above the last stop the last output. *)
Definition evaluate (e : Interpolate A) (value : Q) : option A :=
  match stops e with
  | [] => None
  | first :: rest =>
      match last rest with
      | None => Some first.2
      | Some final =>
          if Qle_bool value first.1 then Some first.2
          else if Qle_bool final.1 value then Some final.2
          else between value first rest
      end
  end.
End Evaluate.

(** Colours are RGBA with channels in [0, 1]. *)
Record Color := { red : Q; green : Q; blue : Q; alpha : Q }.

Definition color (a b : Color) (t : Q) : Color :=
  {| red := number (red a) (red b) t;
     green := number (green a) (green b) t;
     blue := number (blue a) (blue b) t;
     alpha := number (alpha a) (alpha b) t |}.

Definition sameColor (a b : Color) : Prop :=
  red a == red b /\ green a == green b /\ blue a == blue b /\ alpha a == alpha b.

Definition hexDigit (c : Ascii.ascii) : option Z :=
  let n := Z.of_N (Ascii.N_of_ascii c) in
  if (48 <=? n)%Z && (n <=? 57)%Z then Some (n - 48)%Z
  else if (65 <=? n)%Z && (n <=? 70)%Z then Some (n - 55)%Z
  else if (97 <=? n)%Z && (n <=? 102)%Z then Some (n - 87)%Z
  else None.

Definition channel (hi lo : Ascii.ascii) : option Q :=
  h ← hexDigit hi; l ← hexDigit lo; Some (inject_Z (16 * h + l) / 255).

(** The colour literals of the component all have the form [#RRGGBB]. *)
Definition parseColor (s : string) : option Color :=
  match s with
  | String "#" (String r1 (String r0 (String g1 (String g0
      (String b1 (String b0 EmptyString)))))) =>
      r ← channel r1 r0; g ← channel g1 g0; b ← channel b1 b0;
      Some {| red := r; green := g; blue := b; alpha := 1 |}
  | _ => None
  end.

(** Parsing a colour ramp: the stops are validated and the literals read. *)
Definition parseRamp (e : Interpolate string) : option (Interpolate Color) :=
  if valid e then
    outs ← mapM (λ st, c ← parseColor st.2; Some (st.1, c)) (stops e);
    Some {| input := input e; stops := outs |}
  else None.

(** The value of an expression input for a feature at a zoom level.  A
    property used as interpolation input has to be a number. *)
Definition evalInput (i : Input) (zoom : Q) (f : option Feature) : option Q :=
  match i with
  | Zoom => Some zoom
  | Get key =>
      match f with
      | Some ft =>
          match optGet (properties ft) key with
          | JNum q => Some q
          | _ => None
          end
      | None => None
      end
  end.

Definition evalNumber (e : Interpolate Q) (zoom : Q) (f : option Feature) : option Q :=
  if valid e then v ← evalInput (input e) zoom f; evaluate number e v else None.

Definition evalColor (e : Interpolate string) (zoom : Q) (f : option Feature)
  : option Color :=
  p ← parseRamp e; v ← evalInput (input p) zoom f; evaluate color p v.

End Mapbox.

Import Mapbox.

(** ** Inline style of the document root (CSSOM) *)

Module Css.

(** A declaration block: property name to value and [!important] flag. *)
Abbreviation style := (gmap string (string * bool)).

(** [style.getPropertyValue(name)]: the empty string when not set. *)
Definition getPropertyValue (s : style) (name : string) : string :=
  match s !! name with
  | Some d => d.1
  | None => ""
  end.

(** [style.setProperty(name, value)]: an empty value removes the
    declaration; without a third argument the priority is cleared. *)
Definition setProperty (s : style) (name value : string) : style :=
  if decide (value = "") then delete name s
  else <[name := (value, false)]> s.

End Css.

Import Css.

(** ** The component *)

Module MapBox.

Local Open Scope Q_scope.

(** *** Map style and initial zoom *)

Definition styles : gmap string val :=
  <["light" := JStr "mapbox://styles/mapbox/light-v11"]>
  (<["dark" := JStr "mapbox://styles/mapbox/dark-v11"]> ∅).

(** [styles[resolvedTheme] || styles.light] *)
Definition mapStyle (resolvedTheme : option string) : val :=
  JS.or (get styles (propertyKey resolvedTheme)) (get styles "light").

(** [isMobile ? 1 : 2] *)
Definition mapZoom (isMobile : bool) : Q := if isMobile then 1 else 2.

(** *** Language control *)

Inductive Control :=
| MapboxLanguage (defaultLanguage : string).

(** The map behind a [MapRef], as far as the component changes it. *)
Record Surface := { controls : list Control }.

Definition addControl (m : Surface) (c : Control) : Surface :=
  {| controls := controls m ++ [c] |}.

(** The callback ref: [ref] is [null] when the map is detached. *)
Definition mapRef (locale : string) (ref : option Surface) : option Surface :=
  match ref with
  | Some m =>
      if decide (locale = "zh") then Some (addControl m (MapboxLanguage "zh-Hans"))
      else Some m
  | None => None
  end.

(** React calls a callback ref with the instance when it is attached, and,
    whenever the callback changes ([useCallback] on [locale]), the old one
    with [null] and the new one with the instance.  [rerender] follows one
    surface through the locales of the component's later renders. *)
Fixpoint rerender (current : string) (locales : list string) (m : Surface) : Surface :=
  match locales with
  | [] => m
  | l :: rest =>
      if decide (l = current) then rerender current rest m
      else
        let _ := mapRef current None in
        match mapRef l (Some m) with
        | Some m' => rerender l rest m'
        | None => rerender l rest m
        end
  end.

Definition surfaceLifetime (locale : string) (later : list string) : Surface :=
  match mapRef locale (Some {| controls := [] |}) with
  | Some m => rerender locale later m
  | None => {| controls := [] |}
  end.

Definition attachments (m : Surface) : nat := length (controls m).

(** *** Theme effect on the document root *)

Record ThemeCleanup := {
  originalBackground : string;
  originalForeground : string
}.

(** The body of the effect: read both variables, then override them. *)
Definition themeEffect (resolvedTheme : option string) (root : style)
  : style * ThemeCleanup :=
  let originalBackground := getPropertyValue root "--background" in
  let originalForeground := getPropertyValue root "--foreground" in
  let root' :=
    if decide (resolvedTheme = Some "dark") then
      setProperty (setProperty root "--background" "#333333") "--foreground" "#f0f0f0"
    else
      setProperty (setProperty root "--background" "#f5f5f5") "--foreground" "#333333" in
  (root', {| originalBackground := originalBackground;
             originalForeground := originalForeground |}).

(** The function the effect returns. *)
Definition themeCleanup (c : ThemeCleanup) (root : style) : style :=
  setProperty (setProperty root "--background" (originalBackground c))
              "--foreground" (originalForeground c).

(** React runs the cleanup of the previous effect and then the effect
    again when [resolvedTheme] changes, and the cleanup on unmount. *)
Fixpoint themeUpdates (current : option string) (c : ThemeCleanup)
         (later : list (option string)) (root : style) : style :=
  match later with
  | [] => themeCleanup c root
  | t :: rest =>
      if decide (t = current) then themeUpdates current c rest root
      else
        let r := themeEffect t (themeCleanup c root) in
        themeUpdates t r.2 rest r.1
  end.

Definition themeLifetime (resolvedTheme : option string)
           (later : list (option string)) (root : style) : style :=
  let r := themeEffect resolvedTheme root in
  themeUpdates resolvedTheme r.2 later r.1.

(** *** Source and layers *)

Record CircleLayer := {
  layer_id : string;
  circle_radius : Interpolate Q;
  circle_color : option (Interpolate string);
  circle_opacity : Q;
  circle_blur : option Q;
  circle_stroke_width : option Q;
  circle_stroke_color : option string
}.

(** [coordinates?.length ?? 1] *)
Definition rampEnd (coordinates : option (list PhotoRecord)) : Q :=
  match (λ coords, ofIndex (length coords)) <$> coordinates with
  | Some n => n
  | None => 1
  end.

Definition pointHitbox : CircleLayer :=
  {| layer_id := "point-hitbox";
     circle_radius := {| input := Zoom; stops := [(0, 10); (22, 30)] |};
     circle_color := None;
     circle_opacity := 0;
     circle_blur := None;
     circle_stroke_width := None;
     circle_stroke_color := None |}.

Definition pointGlow (coordinates : option (list PhotoRecord)) : CircleLayer :=
  {| layer_id := "point-glow";
     circle_radius := {| input := Zoom; stops := [(0, 5); (22, 20)] |};
     circle_color :=
       Some {| input := Get "id";
               stops := [(0, "#FF9900"); (rampEnd coordinates, "#00FFFF")] |};
     circle_opacity := 4 / 10;
     circle_blur := Some 1;
     circle_stroke_width := None;
     circle_stroke_color := None |}.

Definition point (coordinates : option (list PhotoRecord)) : CircleLayer :=
  {| layer_id := "point";
     circle_radius := {| input := Zoom; stops := [(0, 3); (22, 12)] |};
     circle_color :=
       Some {| input := Get "id";
               stops := [(0, "#FF6600"); (rampEnd coordinates, "#00CCFF")] |};
     circle_opacity := 8 / 10;
     circle_blur := None;
     circle_stroke_width := Some 2;
     circle_stroke_color := Some "#FFFFFF" |}.

Record SourceElement := {
  source_type : string;
  data : FeatureCollection;
  layers : list CircleLayer
}.

(** [geojsonData && <Source ...>]: nothing while [geojsonData] is [null]. *)
Definition renderSource (coordinates : option (list PhotoRecord))
  : option SourceElement :=
  match geojsonData coordinates with
  | Some d =>
      Some {| source_type := "geojson";
              data := d;
              layers := [pointHitbox; pointGlow coordinates; point coordinates] |}
  | None => None
  end.

(** A layer's paint is accepted when its expressions are. *)
Definition paintValid (l : CircleLayer) : bool :=
  valid (circle_radius l) &&
  match circle_color l with
  | Some e => bool_decide (is_Some (parseRamp e))
  | None => true
  end.

Definition radiusAt (l : CircleLayer) (zoom : Q) : option Q :=
  evalNumber (circle_radius l) zoom None.

Definition colorOf (l : CircleLayer) (f : Feature) : option Color :=
  e ← circle_color l; evalColor e 0 (Some f).

(** *** Popup state and click handler *)

Record PopupInfo := {
  longitude : val;
  latitude : val;
  url : val;
  blurData : val;
  width : val;
  height : val
}.

(** The component's state: [popupInfo], initially [null]. *)
Abbreviation State := (option PopupInfo).

Definition initialState : State := None.

Definition setPopupInfo (v : option PopupInfo) (st : State) : State := v.

Record MapMouseEvent := { event_features : option (list Feature) }.

(** [event.features?.[0]] *)
Definition topFeature (event : MapMouseEvent) : option Feature :=
  fs ← event_features event; head fs.

Definition onClick (event : MapMouseEvent) : State -> State :=
  match topFeature event with
  | Some feature =>
      match geometry feature with
      | Point coordinates =>
          setPopupInfo (Some
            {| longitude := index coordinates 0;
               latitude := index coordinates 1;
               url := optGet (properties feature) "url";
               blurData := optGet (properties feature) "blurData";
               width := optGet (properties feature) "width";
               height := optGet (properties feature) "height" |})
      | _ => setPopupInfo None
      end
  | None => setPopupInfo None
  end.

(** The popup's [onClose]. *)
Definition onClose : State -> State := setPopupInfo None.

Record ImageProps := {
  src : val;
  placeholder : string;
  blurDataURL : val;
  alt : string;
  image_width : val;
  image_height : val
}.

Record PopupElement := {
  popup_longitude : val;
  popup_latitude : val;
  anchor : string;
  closeOnClick : bool;
  offset : Z * Z;
  className : string;
  image : ImageProps
}.

(** [popupInfo && <Popup ...>]: the popups in the rendered tree. *)
Definition renderPopup (popupInfo : State) : list PopupElement :=
  match popupInfo with
  | Some info =>
      [ {| popup_longitude := longitude info;
           popup_latitude := latitude info;
           anchor := "bottom";
           closeOnClick := false;
           offset := (0, -15)%Z;
           className := "custom-popup";
           image := {| src := url info;
                       placeholder := "blur";
                       blurDataURL := nullish (blurData info) (JStr "");
                       alt := "map photo";
                       image_width := width info;
                       image_height := height info |} |} ]
  | None => []
  end.

(** *** The image inside the popup *)

(** What [next/image] asks of its props in a development build: an image
    with [placeholder="blur"] has to come with a [blurDataURL], and a falsy
    one, the empty string included, counts as none; the component throws
    when the check fails. *)
Definition blurCheck (p : ImageProps) : bool :=
  negb (String.eqb (placeholder p) "blur") || truthy (blurDataURL p).

(** *** Ramp colours of the features *)

(** The parsed outputs of the first and of the last stop of a layer's
    colour ramp. *)
Definition startColor (l : CircleLayer) : option Color :=
  e ← circle_color l; st ← head (stops e); parseColor st.2.

Definition endColor (l : CircleLayer) : option Color :=
  e ← circle_color l; st ← last (stops e); parseColor st.2.

(** Feature [f] is painted, on layer [l], with the colour a fraction [t] of
    the way from the ramp's start colour to its end colour. *)
Definition coloredAt (l : CircleLayer) (f : Feature) (t : Q) : Prop :=
  ∃ c s e, colorOf l f = Some c ∧ startColor l = Some s ∧ endColor l = Some e ∧
           sameColor c (color s e t).

(** The two-record dataset of the specification's scenario. *)
Definition scenario : option (list PhotoRecord) :=
  Some [ {| rec_longitude := Some (11638 # 100); rec_latitude := Some (399 # 10);
            rec_url := "a.jpg"; rec_blurData := None;
            rec_width := 100; rec_height := 200 |};
         {| rec_longitude := Some (12147 # 100); rec_latitude := Some (3123 # 100);
            rec_url := "b.jpg"; rec_blurData := None;
            rec_width := 50; rec_height := 50 |} ].

(** A click on the scenario's map that hits its features, first one on top. *)
Definition clickOnFirst : MapMouseEvent :=
  {| event_features := features <$> geojsonData scenario |}.

(** *** Histories of the popup state *)

(** The two handlers that write [popupInfo]. *)
Inductive Action :=
| Click (event : MapMouseEvent)   (* the map's [onClick] *)
| Close.                          (* the popup's [onClose] *)

Definition act (a : Action) : State -> State :=
  match a with
  | Click event => onClick event
  | Close => onClose
  end.

(** The state after the handlers of a history have run, oldest first. *)
Definition run (history : list Action) (st : State) : State :=
  foldl (λ s a, act a s) st history.

(** *** The theme effect while the component is mounted *)

(** The pair of colours the effect writes for a theme. *)
Definition themePair (resolvedTheme : option string) : string * string :=
  if decide (resolvedTheme = Some "dark") then ("#333333", "#f0f0f0")
  else ("#f5f5f5", "#333333").

(** As [themeUpdates], but stopping before the unmount: the theme of the
    last render, the pending cleanup and the root's style. *)
Fixpoint themeMounted (current : option string) (c : ThemeCleanup)
         (later : list (option string)) (root : style)
  : option string * ThemeCleanup * style :=
  match later with
  | [] => (current, c, root)
  | t :: rest =>
      if decide (t = current) then themeMounted current c rest root
      else
        let r := themeEffect t (themeCleanup c root) in
        themeMounted t r.2 rest r.1
  end.

Definition themeRendered (resolvedTheme : option string)
           (later : list (option string)) (root : style)
  : option string * ThemeCleanup * style :=
  let r := themeEffect resolvedTheme root in
  themeMounted resolvedTheme r.2 later r.1.

(** What holds between two renders: the pending cleanup holds the values of
    the style [root0] the component found, and the style reads as [root0]
    with the pair of the current theme written over the two variables. *)
Definition mountedInv (root0 : style) (st : option string * ThemeCleanup * style) : Prop :=
  st.1.2 = {| originalBackground := getPropertyValue root0 "--background";
              originalForeground := getPropertyValue root0 "--foreground" |} ∧
  ∀ name,
    getPropertyValue st.2 name
    = if decide (name = "--background") then (themePair st.1.1).1
      else if decide (name = "--foreground") then (themePair st.1.1).2
      else getPropertyValue root0 name.

End MapBox.

Import MapBox.

(** * Properties *)

(** ** Feature builder *)

Lemma toFeature_id i r : featureId (toFeature i r) = JNum (ofIndex i).
Proof. reflexivity. Qed.

Lemma toFeature_geometry i r :
  geometry (toFeature i r) = Point [ofNum (rec_longitude r); ofNum (rec_latitude r)].
Proof. reflexivity. Qed.

Lemma toFeature_properties i r :
  optGet (properties (toFeature i r)) "url" = JStr (rec_url r) ∧
  optGet (properties (toFeature i r)) "blurData" = ofStr (rec_blurData r) ∧
  optGet (properties (toFeature i r)) "width" = JNum (rec_width r) ∧
  optGet (properties (toFeature i r)) "height" = JNum (rec_height r).
Proof. repeat split. Qed.

(** C3. The feature builder returns [null] for a dataset that is not
    available yet.  For a list of records it returns a collection with as
    many features as records, in the order of the records: the feature at
    position [i] is the one built from the record at position [i], and its
    [id] is [i]. *)
Theorem geojsonData_length_order_index (coordinates : list PhotoRecord) :
  geojsonData None = None ∧
  ∃ fc, geojsonData (Some coordinates) = Some fc ∧
        length (features fc) = length coordinates ∧
        (∀ i, features fc !! i = toFeature i <$> coordinates !! i) ∧
        (∀ i, featureId <$> features fc !! i
              = (λ _, JNum (ofIndex i)) <$> coordinates !! i).
Proof.
  split; [reflexivity|].
  eexists; split; [reflexivity|]; simpl.
  split; [apply length_imap|].
  split; intros i; rewrite list_lookup_imap; [reflexivity|].
  destruct (coordinates !! i); reflexivity.
Qed.

(** ** Initial zoom *)

(** C8. The initial zoom on a mobile viewport is strictly smaller than the
    one on a desktop viewport. *)
Theorem mapZoom_mobile_lt_desktop : (mapZoom true < mapZoom false)%Q.
Proof. reflexivity. Qed.

(** ** Selection *)

Lemma onClick_not_point event f st :
  topFeature event = Some f → isPoint (geometry f) = false →
  onClick event st = None.
Proof.
  unfold onClick; intros -> Hg. destruct (geometry f); try reflexivity.
  discriminate.
Qed.

Lemma renderPopup_inv st p :
  p ∈ renderPopup st →
  ∃ info, st = Some info ∧ renderPopup st = [p].
Proof.
  destruct st as [info|]; simpl; intros Hp.
  - apply list_elem_of_singleton in Hp as ->. eauto.
  - by apply elem_of_nil in Hp.
Qed.

(** C4. A click whose top-most feature is a point selects that feature: the
    state holds its two coordinates and its url, blur placeholder, width and
    height.  A click that hits no feature, or a feature that is not a point,
    clears the selection.  The rendered tree holds at most one popup, and a
    popup shows the fields of the current selection; right after a click it
    shows the clicked feature, whatever the state was before. *)
Theorem onClick_selects_top_point (event : MapMouseEvent) (st : State) :
  (∀ f coords,
      topFeature event = Some f → geometry f = Point coords →
      onClick event st =
        Some {| longitude := index coords 0;
                latitude := index coords 1;
                url := optGet (properties f) "url";
                blurData := optGet (properties f) "blurData";
                width := optGet (properties f) "width";
                height := optGet (properties f) "height" |}) ∧
  (topFeature event = None → onClick event st = None) ∧
  (∀ f, topFeature event = Some f → isPoint (geometry f) = false →
        onClick event st = None) ∧
  (length (renderPopup st) ≤ 1)%nat ∧
  (∀ p, p ∈ renderPopup st →
        ∃ info, st = Some info ∧
                popup_longitude p = longitude info ∧
                popup_latitude p = latitude info ∧
                src (image p) = url info ∧
                image_width (image p) = width info ∧
                image_height (image p) = height info) ∧
  (∀ p, p ∈ renderPopup (onClick event st) →
        ∃ f coords, topFeature event = Some f ∧ geometry f = Point coords ∧
                    popup_longitude p = index coords 0 ∧
                    popup_latitude p = index coords 1 ∧
                    src (image p) = optGet (properties f) "url" ∧
                    image_width (image p) = optGet (properties f) "width" ∧
                    image_height (image p) = optGet (properties f) "height").
Proof.
  repeat apply conj.
  - intros f coords Hf Hg. unfold onClick. rewrite Hf, Hg. reflexivity.
  - intros Hf. unfold onClick. rewrite Hf. reflexivity.
  - intros f Hf Hg. eapply onClick_not_point; eauto.
  - destruct st; simpl; lia.
  - intros p Hp. destruct (renderPopup_inv _ _ Hp) as (info & -> & Hr).
    exists info. simpl in Hr. injection Hr as <-. repeat split.
  - intros p Hp. destruct (renderPopup_inv _ _ Hp) as (info & Hst & Hr).
    unfold onClick in *.
    destruct (topFeature event) as [f|]; [|discriminate].
    destruct (geometry f) as [coords| | | | | |] eqn:Hg; try discriminate.
    exists f, coords. simpl in Hr. injection Hr as <-.
    repeat split. exact Hg.
Qed.

Lemma onClick_selects_top_point_witness :
  onClick clickOnFirst None =
    Some {| longitude := JNum (11638 # 100); latitude := JNum (399 # 10);
            url := JStr "a.jpg"; blurData := JNull;
            width := JNum 100; height := JNum 200 |}.
Proof.
  exact (proj1 (onClick_selects_top_point clickOnFirst None)
               (toFeature 0 {| rec_longitude := Some (11638 # 100);
                               rec_latitude := Some (399 # 10);
                               rec_url := "a.jpg"; rec_blurData := None;
                               rec_width := 100; rec_height := 200 |})
               [JNum (11638 # 100); JNum (399 # 10)] eq_refl eq_refl).
Defined.

(** The value passed as [blurDataURL]: the selection's blur placeholder when
    there is one, and the empty string when it is [null] or [undefined]. *)
Theorem blurDataURL_fallback (info : PopupInfo) :
  (blurData info = JUndefined ∨ blurData info = JNull →
   (blurDataURL ∘ image) <$> renderPopup (Some info) = [JStr ""]) ∧
  (blurData info ≠ JUndefined → blurData info ≠ JNull →
   (blurDataURL ∘ image) <$> renderPopup (Some info) = [blurData info]).
Proof.
  split.
  - intros [H | H]; simpl; rewrite H; reflexivity.
  - intros Hu Hn. simpl. destruct (blurData info); try reflexivity; congruence.
Qed.

Lemma blurDataURL_fallback_witness :
  (blurDataURL ∘ image) <$>
    renderPopup (Some {| longitude := JNum 2; latitude := JNum 48;
                         url := JStr "a.jpg"; blurData := JNull;
                         width := JNum 100; height := JNum 200 |})
  = [JStr ""].
Proof.
  exact (proj1 (blurDataURL_fallback
                  {| longitude := JNum 2; latitude := JNum 48;
                     url := JStr "a.jpg"; blurData := JNull;
                     width := JNum 100; height := JNum 200 |})
               (or_intror eq_refl)).
Defined.

(** With a blur placeholder that is a non-empty string the image passes the
    check of [next/image]. *)
Lemma present_blurData_image_accepted (info : PopupInfo) (b : string) :
  blurData info = JStr b → b ≠ "" →
  (blurCheck ∘ image) <$> renderPopup (Some info) = [true].
Proof.
  intros Hb Hne. simpl. unfold blurCheck; simpl. rewrite Hb; simpl.
  destruct (String.eqb b "") eqn:E; [|reflexivity].
  apply String.eqb_eq in E. congruence.
Qed.

(** C10. For a selection whose blur placeholder is [null] or [undefined] the
    popup's image is given [placeholder="blur"] together with the empty
    string as [blurDataURL], whatever the other fields are.  The empty string
    does not pass the check of [next/image], so the image is not rendered
    but rejected.  This is the case for a click on the first feature of the
    scenario, whose records have no blur placeholder. *)
Theorem missing_blurData_image_rejected (lon lat u w h : val) :
  (λ p, (placeholder (image p), blurDataURL (image p), blurCheck (image p))) <$>
    renderPopup (Some {| longitude := lon; latitude := lat; url := u;
                         blurData := JNull; width := w; height := h |})
  = [("blur", JStr "", false)] ∧
  (λ p, (placeholder (image p), blurDataURL (image p), blurCheck (image p))) <$>
    renderPopup (Some {| longitude := lon; latitude := lat; url := u;
                         blurData := JUndefined; width := w; height := h |})
  = [("blur", JStr "", false)] ∧
  (λ p, (placeholder (image p), blurDataURL (image p), blurCheck (image p))) <$>
    renderPopup (onClick clickOnFirst initialState)
  = [("blur", JStr "", false)].
Proof. repeat split. Qed.

(** ** Circle radii *)

Section Radius.
Local Open Scope Q_scope.

(** A radius ramp from [a] at zoom 0 to [b] at zoom 22 is the straight line
    between the two on that range. *)
Lemma zoom_ramp_line (a b z : Q) :
  0 <= z → z <= 22 →
  ∃ r, evalNumber {| input := Zoom; stops := [(0, a); (22, b)] |} z None = Some r ∧
       r == a + (b - a) * z * (1 # 22).
Proof.
  intros H0 H22. unfold evalNumber, evaluate. cbn.
  destruct (Qle_bool z 0) eqn:Ez; [|destruct (Qle_bool 22 z) eqn:Et].
  - apply Qle_bool_iff in Ez. exists a. split; [reflexivity|].
    assert (z == 0) as -> by lra. ring.
  - apply Qle_bool_iff in Et. exists b. split; [reflexivity|].
    assert (z == 22) as -> by lra. ring.
  - eexists. split; [reflexivity|].
    unfold number, interpolationFactor.
    change (Qeq_bool (22 - 0) 0) with false. cbv iota. field.
Qed.

(** C6. On the zoom range of the ramps, 0 to 22, the radius of each of the
    three layers does not decrease when the zoom grows, and at every zoom
    level the hit-target radius is strictly larger than both the glow radius
    and the point radius. *)
Theorem radius_monotone_hitbox_largest
        (coordinates : option (list PhotoRecord)) (z1 z2 : Q) :
  0 <= z1 → z1 <= z2 → z2 <= 22 →
  ∃ h1 g1 p1 h2 g2 p2,
    radiusAt pointHitbox z1 = Some h1 ∧
    radiusAt (pointGlow coordinates) z1 = Some g1 ∧
    radiusAt (point coordinates) z1 = Some p1 ∧
    radiusAt pointHitbox z2 = Some h2 ∧
    radiusAt (pointGlow coordinates) z2 = Some g2 ∧
    radiusAt (point coordinates) z2 = Some p2 ∧
    h1 <= h2 ∧ g1 <= g2 ∧ p1 <= p2 ∧
    g1 < h1 ∧ p1 < h1 ∧ g2 < h2 ∧ p2 < h2.
Proof.
  intros H0 H12 H22.
  assert (0 <= z2) as H0' by lra. assert (z1 <= 22) as H22' by lra.
  destruct (zoom_ramp_line 10 30 z1 H0 H22') as (h1 & Eh1 & Hh1).
  destruct (zoom_ramp_line 5 20 z1 H0 H22') as (g1 & Eg1 & Hg1).
  destruct (zoom_ramp_line 3 12 z1 H0 H22') as (p1 & Ep1 & Hp1).
  destruct (zoom_ramp_line 10 30 z2 H0' H22) as (h2 & Eh2 & Hh2).
  destruct (zoom_ramp_line 5 20 z2 H0' H22) as (g2 & Eg2 & Hg2).
  destruct (zoom_ramp_line 3 12 z2 H0' H22) as (p2 & Ep2 & Hp2).
  exists h1, g1, p1, h2, g2, p2.
  unfold radiusAt; simpl circle_radius.
  repeat (split; [assumption|]).
  repeat split; lra.
Qed.

Lemma radius_monotone_hitbox_largest_witness :
  ∃ h1 g1 p1 h2 g2 p2,
    radiusAt pointHitbox 0 = Some h1 ∧
    radiusAt (pointGlow scenario) 0 = Some g1 ∧
    radiusAt (point scenario) 0 = Some p1 ∧
    radiusAt pointHitbox 22 = Some h2 ∧
    radiusAt (pointGlow scenario) 22 = Some g2 ∧
    radiusAt (point scenario) 22 = Some p2 ∧
    h1 <= h2 ∧ g1 <= g2 ∧ p1 <= p2 ∧
    g1 < h1 ∧ p1 < h1 ∧ g2 < h2 ∧ p2 < h2.
Proof.
  apply (radius_monotone_hitbox_largest scenario 0 22);
    unfold Qle; simpl; lia.
Defined.

End Radius.

(** ** Theme effect *)

(** Reading back after [setProperty]: the declaration block behaves as a
    total function from names to values that is updated at one name. *)
Lemma getPropertyValue_setProperty (s : style) (n v m : string) :
  getPropertyValue (setProperty s n v) m
  = if decide (n = m) then v else getPropertyValue s m.
Proof.
  unfold getPropertyValue, setProperty.
  destruct (decide (v = "")) as [-> | Hv].
  - rewrite lookup_delete. destruct (decide (n = m)); reflexivity.
  - rewrite lookup_insert. destruct (decide (n = m)); reflexivity.
Qed.

Lemma themeEffect_then_cleanup (theme : option string) (root : style) (name : string) :
  getPropertyValue (themeCleanup (themeEffect theme root).2 (themeEffect theme root).1) name
  = getPropertyValue root name.
Proof.
  unfold themeCleanup, themeEffect; simpl.
  rewrite !getPropertyValue_setProperty.
  destruct (decide ("--foreground" = name)) as [<- | ?]; [reflexivity|].
  destruct (decide ("--background" = name)) as [<- | ?]; [reflexivity|].
  destruct (decide (theme = Some "dark"));
    rewrite !getPropertyValue_setProperty;
    repeat (destruct (decide _); try congruence).
Qed.

Lemma themeUpdates_restores (later : list (option string)) :
  ∀ current c (root root0 : style),
    (∀ n, getPropertyValue (themeCleanup c root) n = getPropertyValue root0 n) →
    ∀ n, getPropertyValue (themeUpdates current c later root) n
         = getPropertyValue root0 n.
Proof.
  induction later as [| t rest IH]; intros current c root root0 Hinv n; simpl.
  - apply Hinv.
  - destruct (decide (t = current)).
    + apply IH. exact Hinv.
    + apply IH. intros m.
      etrans; [apply (themeEffect_then_cleanup t (themeCleanup c root)) | apply Hinv].
Qed.

(** C5. The theme effect records the values the two variables have when it
    runs.  Its cleanup puts back exactly those values, for any prior content
    of the root's style: after effect and cleanup every property reads as it
    did before, and so it does after a whole lifetime of the component, with
    any number of theme changes, once the component is unmounted. *)
Theorem theme_override_round_trip
        (resolvedTheme : option string) (later : list (option string))
        (root : style) (name : string) :
  (themeEffect resolvedTheme root).2
  = {| originalBackground := getPropertyValue root "--background";
       originalForeground := getPropertyValue root "--foreground" |} ∧
  getPropertyValue
    (themeCleanup (themeEffect resolvedTheme root).2 (themeEffect resolvedTheme root).1)
    name = getPropertyValue root name ∧
  getPropertyValue (themeLifetime resolvedTheme later root) name
  = getPropertyValue root name.
Proof.
  split; [reflexivity|]. split.
  - apply themeEffect_then_cleanup.
  - unfold themeLifetime. apply themeUpdates_restores.
    intros n. apply themeEffect_then_cleanup.
Qed.

(** While the effect is active the variables hold the theme's pair. *)
Lemma themeEffect_overrides (theme : option string) (root : style) :
  getPropertyValue (themeEffect theme root).1 "--background"
  = (if decide (theme = Some "dark") then "#333333" else "#f5f5f5") ∧
  getPropertyValue (themeEffect theme root).1 "--foreground"
  = (if decide (theme = Some "dark") then "#f0f0f0" else "#333333").
Proof.
  unfold themeEffect; simpl.
  destruct (decide (theme = Some "dark"));
    rewrite !getPropertyValue_setProperty; split; reflexivity.
Qed.

(** ** Map style *)

Lemma mapStyle_dark : mapStyle (Some "dark") = JStr "mapbox://styles/mapbox/dark-v11".
Proof. reflexivity. Qed.

(** Every theme other than ["dark"] that does not name a member of
    [Object.prototype] gets the light style, [undefined] included. *)
Lemma mapStyle_default (resolvedTheme : option string) :
  resolvedTheme ≠ Some "dark" →
  inherited (propertyKey resolvedTheme) = false →
  mapStyle resolvedTheme = JStr "mapbox://styles/mapbox/light-v11".
Proof.
  intros Hd Hi. unfold mapStyle, get at 1, styles.
  rewrite lookup_insert. destruct (decide ("light" = propertyKey resolvedTheme)).
  - reflexivity.
  - rewrite lookup_insert.
    destruct (decide ("dark" = propertyKey resolvedTheme)) as [E|].
    + destruct resolvedTheme as [t|]; simpl in E; [subst; congruence|discriminate].
    + rewrite lookup_empty, Hi. reflexivity.
Qed.

(** C7. For the theme ["toString"] the lookup in [styles] finds the method
    that every object inherits; it is truthy, so the fallback to the light
    style is not taken and [mapStyle] is not a style identifier at all. *)
Theorem mapStyle_inherited_key :
  mapStyle (Some "toString") = JBuiltin "toString" ∧
  mapStyle (Some "toString") ≠ JStr "mapbox://styles/mapbox/light-v11" ∧
  mapStyle None = JStr "mapbox://styles/mapbox/light-v11" ∧
  mapStyle (Some "dark") = JStr "mapbox://styles/mapbox/dark-v11".
Proof. repeat split. discriminate. Qed.

(** ** Language control *)

Lemma rerender_same_locale (locale : string) (later : list string) (m : Surface) :
  Forall (eq locale) later → rerender locale later m = m.
Proof.
  induction 1 as [| l rest <- _ IH]; simpl; [reflexivity|].
  destruct (decide (locale = locale)); [exact IH | congruence].
Qed.

(** C9, as the component has it.  The callback ref attaches one language
    control when it is called with a map and the locale is ["zh"], and none
    in any other call.  A map whose locale stays the same for its whole
    lifetime therefore gets exactly one control for ["zh"] and none for any
    other locale. *)
Theorem mapRef_attaches_for_zh
        (locale : string) (later : list string) (m : Surface) :
  (locale = "zh" →
   mapRef locale (Some m) = Some (addControl m (MapboxLanguage "zh-Hans"))) ∧
  (locale ≠ "zh" → mapRef locale (Some m) = Some m) ∧
  mapRef locale None = None ∧
  (Forall (eq locale) later →
   attachments (surfaceLifetime locale later) = if decide (locale = "zh") then 1%nat else 0%nat).
Proof.
  repeat apply conj.
  - intros ->. reflexivity.
  - intros Hl. unfold mapRef. destruct (decide (locale = "zh")); [congruence|reflexivity].
  - reflexivity.
  - intros Hsame. unfold surfaceLifetime, mapRef.
    destruct (decide (locale = "zh")); rewrite rerender_same_locale by assumption;
      reflexivity.
Qed.

Lemma mapRef_attaches_for_zh_witness :
  attachments (surfaceLifetime "zh" ["zh"; "zh"]) = 1%nat.
Proof.
  apply (proj2 (proj2 (proj2
           (mapRef_attaches_for_zh "zh" ["zh"; "zh"] {| controls := [] |})))).
  repeat constructor.
Defined.

(** The claim fails when the locale leaves ["zh"] and comes back while the
    same map stays mounted: the map then carries two language controls. *)
Lemma language_control_attached_twice :
  ¬ (attachments (surfaceLifetime "zh" ["en"; "zh"]) ≤ 1)%nat.
Proof. vm_compute. lia. Qed.

(** ** Colour ramps *)

Lemma rampEnd_available (coords : list PhotoRecord) :
  rampEnd (Some coords) = ofIndex (length coords).
Proof. reflexivity. Qed.

(** C1. For the empty dataset the source and its layers are rendered, and
    the colour ramps of the glow and point layers get the domain from 0 to
    0: [coordinates?.length ?? 1] falls back to 1 only when there is no
    dataset at all, and then no layer is rendered.  The two stop inputs are
    not in ascending order and the paint of both layers is rejected. *)
Theorem empty_dataset_ramp_domain :
  (λ s, (λ l, domain <$> circle_color l) <$> layers s) <$> renderSource (Some [])
  = Some [None; Some (Some (0, 0)%Q); Some (Some (0, 0)%Q)] ∧
  paintValid (pointGlow (Some [])) = false ∧
  paintValid (point (Some [])) = false ∧
  rampEnd None = 1%Q ∧
  renderSource None = None.
Proof. repeat split. Qed.

(** The claim of the scenario fails at the second feature: its colour on the
    point layer is not the end colour of the ramp. *)
Lemma scenario_second_feature_not_end_color :
  ¬ (∃ f0 f1,
        features <$> geojsonData scenario = Some [f0; f1] ∧
        featureId f0 = JNum 0 ∧ featureId f1 = JNum 1 ∧
        coloredAt (point scenario) f0 0 ∧
        coloredAt (point scenario) f1 1).
Proof.
  intros (f0 & f1 & Hfs & _ & _ & _ & (c & s & e & Hc & Hs & He & Hsame)).
  simpl in Hfs. injection Hfs as <- <-.
  vm_compute in Hc, Hs, He.
  injection Hc as <-. injection Hs as <-. injection He as <-.
  destruct Hsame as [Hr _]. vm_compute in Hr. discriminate.
Qed.

(** C2, as the component has it.  The collection of the scenario has two
    features, with ids 0 and 1.  On both ramps the first feature has the
    start colour, and the second feature has the colour half way between
    the start colour and the end colour: the ramp ends at the size of the
    dataset, 2, and the id of the second feature is 1. *)
Theorem scenario_ramp_colors :
  ∃ f0 f1,
    features <$> geojsonData scenario = Some [f0; f1] ∧
    featureId f0 = JNum 0 ∧ featureId f1 = JNum 1 ∧
    coloredAt (pointGlow scenario) f0 0 ∧
    coloredAt (point scenario) f0 0 ∧
    coloredAt (pointGlow scenario) f1 (1 # 2) ∧
    coloredAt (point scenario) f1 (1 # 2).
Proof.
  do 2 eexists. split; [reflexivity|].
  split; [reflexivity|]. split; [reflexivity|].
  repeat split;
    (do 3 eexists; split; [vm_compute; reflexivity|];
     split; [vm_compute; reflexivity|]; split; [vm_compute; reflexivity|];
     repeat split; vm_compute; reflexivity).
Qed.

Section Ramp.
Local Open Scope Q_scope.

Lemma sameColor_mix_start (s e : Color) (t : Q) : t == 0 → sameColor s (color s e t).
Proof.
  intros Ht. unfold sameColor, color, number; simpl.
  repeat split; rewrite Ht; ring.
Qed.

Lemma sameColor_mix_factor (s e : Color) (t u : Q) :
  t == u → sameColor (color s e t) (color s e u).
Proof.
  intros Ht. unfold sameColor, color, number; simpl.
  repeat split; rewrite Ht; reflexivity.
Qed.

(** A two-stop colour ramp from 0 to [n] paints a feature whose id is [v],
    with [0 <= v < n], at the fraction [v / n] between its two colours. *)
Lemma ramp_two_stops (n v : Q) (s e : string) (cs ce : Color) (f : Feature) :
  parseColor s = Some cs → parseColor e = Some ce →
  0 <= v → v < n →
  featureId f = JNum v →
  ∃ c, evalColor {| input := Get "id"; stops := [(0, s); (n, e)] |} 0 (Some f) = Some c ∧
       sameColor c (color cs ce (v / n)).
Proof.
  intros Hs He Hv Hvn Hid.
  assert (Qle_bool n 0 = false) as Hn0.
  { destruct (Qle_bool n 0) eqn:E; [|reflexivity].
    apply Qle_bool_iff in E. lra. }
  assert (Qle_bool n v = false) as Hnv.
  { destruct (Qle_bool n v) eqn:E; [|reflexivity].
    apply Qle_bool_iff in E. lra. }
  unfold evalColor, parseRamp, valid, labels; cbn [stops input fmap list_fmap fst
    length Nat.leb ascending negb andb mapM snd mbind option_bind mret option_ret].
  rewrite Hn0. cbn [negb andb mbind option_bind]. rewrite Hs, He.
  cbn [mbind option_bind fmap option_fmap option_map mret option_ret input evalInput].
  unfold featureId in Hid. rewrite Hid.
  cbn [mbind option_bind]. unfold evaluate. cbn [stops last fst snd].
  rewrite Hnv.
  destruct (Qle_bool v 0) eqn:Ev.
  - apply Qle_bool_iff in Ev. eexists; split; [reflexivity|].
    apply sameColor_mix_start. assert (v == 0) as -> by lra. field. lra.
  - cbn [between fst snd]. rewrite Hnv. eexists; split; [reflexivity|].
    apply sameColor_mix_factor. unfold interpolationFactor.
    destruct (Qeq_bool (n - 0) 0) eqn:E.
    + apply Qeq_bool_iff in E. lra.
    + field. lra.
Qed.

(** In a dataset of [n] records the feature at position [i] is painted, on
    both ramps, at the fraction [i / n] between the start and end colours. *)
Lemma feature_ramp_position (coords : list PhotoRecord) (i : nat) (r : PhotoRecord) :
  coords !! i = Some r →
  coloredAt (pointGlow (Some coords)) (toFeature i r)
            (ofIndex i / ofIndex (length coords)) ∧
  coloredAt (point (Some coords)) (toFeature i r)
            (ofIndex i / ofIndex (length coords)).
Proof.
  intros Hi. apply lookup_lt_Some in Hi.
  assert (0 <= ofIndex i) as H0.
  { unfold ofIndex. change 0 with (inject_Z 0). rewrite <- Zle_Qle. lia. }
  assert (ofIndex i < ofIndex (length coords)) as Hlt.
  { unfold ofIndex. rewrite <- Zlt_Qlt. lia. }
  split.
  - destruct (ramp_two_stops (ofIndex (length coords)) (ofIndex i)
                "#FF9900" "#00FFFF" _ _ (toFeature i r)
                eq_refl eq_refl H0 Hlt eq_refl) as (c & Hc & Hsame).
    exists c. do 2 eexists. split; [exact Hc|].
    split; [reflexivity|]. split; [reflexivity|]. exact Hsame.
  - destruct (ramp_two_stops (ofIndex (length coords)) (ofIndex i)
                "#FF6600" "#00CCFF" _ _ (toFeature i r)
                eq_refl eq_refl H0 Hlt eq_refl) as (c & Hc & Hsame).
    exists c. do 2 eexists. split; [exact Hc|].
    split; [reflexivity|]. split; [reflexivity|]. exact Hsame.
Qed.

Lemma parseRamp_two_stops (n : Q) (i : Input) (s e : string) (cs ce : Color) :
  parseColor s = Some cs → parseColor e = Some ce → 0 < n →
  parseRamp {| input := i; stops := [(0, s); (n, e)] |}
  = Some {| input := i; stops := [(0, cs); (n, ce)] |}.
Proof.
  intros Hs He Hn.
  assert (Qle_bool n 0 = false) as Hn0.
  { destruct (Qle_bool n 0) eqn:E; [|reflexivity].
    apply Qle_bool_iff in E. lra. }
  unfold parseRamp, valid, labels; cbn [stops input fmap list_fmap fst
    length Nat.leb ascending negb andb mapM snd mbind option_bind mret option_ret].
  rewrite Hn0. cbn [negb andb mbind option_bind]. rewrite Hs, He. reflexivity.
Qed.

(** For every dataset with at least one record both ramps are accepted, with
    the domain from 0 to the size of the dataset. *)
Lemma nonempty_dataset_ramp_valid (coords : list PhotoRecord) :
  coords ≠ [] →
  paintValid (pointGlow (Some coords)) = true ∧
  paintValid (point (Some coords)) = true ∧
  domain <$> circle_color (pointGlow (Some coords))
  = Some (Some (0, ofIndex (length coords))) ∧
  domain <$> circle_color (point (Some coords))
  = Some (Some (0, ofIndex (length coords))).
Proof.
  intros Hne.
  assert (0 < ofIndex (length coords)) as Hn.
  { destruct coords; [congruence|]. unfold ofIndex.
    change 0 with (inject_Z 0). rewrite <- Zlt_Qlt. simpl length. lia. }
  unfold paintValid; simpl circle_color; simpl circle_radius.
  rewrite rampEnd_available.
  rewrite (parseRamp_two_stops _ _ "#FF9900" "#00FFFF" _ _ eq_refl eq_refl Hn).
  rewrite (parseRamp_two_stops _ _ "#FF6600" "#00CCFF" _ _ eq_refl eq_refl Hn).
  repeat split.
Qed.

End Ramp.

(** * Further properties of the component *)

(** ** Feature builder and click handler together *)

(** X1. The ids of the features of a collection are pairwise different. *)
Theorem geojsonData_ids_unique (coords : list PhotoRecord) (fc : FeatureCollection) :
  geojsonData (Some coords) = Some fc →
  NoDup (featureId <$> features fc).
Proof.
  intros [= <-]; simpl. apply NoDup_alt. intros i j x Hi Hj.
  rewrite list_lookup_fmap, list_lookup_imap in Hi, Hj.
  destruct (coords !! i) as [ri|]; [|discriminate].
  destruct (coords !! j) as [rj|]; [|discriminate].
  simpl in Hi, Hj. rewrite toFeature_id in Hi, Hj.
  rewrite <- Hj in Hi. injection Hi as Hi. lia.
Qed.

Lemma geojsonData_ids_unique_witness :
  NoDup (featureId <$> imap toFeature (default [] scenario)).
Proof.
  apply (geojsonData_ids_unique (default [] scenario)
           {| collection_type := "FeatureCollection";
              features := imap toFeature (default [] scenario) |}).
  reflexivity.
Defined.



(** X4. The popup state after any history of clicks and closes is the state
    its last handler sets on its own: nothing of an earlier selection
    survives a later click or close.  After a close, and after a click that
    hits nothing, no popup is rendered. *)
Theorem selection_last_action_wins
        (history : list Action) (a : Action) (st : State) :
  run (history ++ [a]) st = act a initialState ∧
  renderPopup (run (history ++ [Close]) st) = [] ∧
  renderPopup (run (history ++ [Click {| event_features := None |}]) st) = [] ∧
  renderPopup (run (history ++ [Click {| event_features := Some [] |}]) st) = [].
Proof.
  unfold run. rewrite !foldl_snoc. repeat split.
  destruct a as [event|]; [|reflexivity].
  unfold act, onClick.
  destruct (topFeature event) as [f|]; [|reflexivity].
  destruct (geometry f); reflexivity.
Qed.

(** ** Map style, all cases *)

(** X5. What [mapStyle] is for every theme: the dark style for ["dark"]; for
    a theme that names a member of [Object.prototype] the inherited member
    itself; the light style for everything else, [undefined] included.  The
    result is truthy in every case. *)
Theorem mapStyle_cases (resolvedTheme : option string) :
  mapStyle resolvedTheme =
    (if decide (resolvedTheme = Some "dark")
     then JStr "mapbox://styles/mapbox/dark-v11"
     else if inherited (propertyKey resolvedTheme)
          then JBuiltin (propertyKey resolvedTheme)
          else JStr "mapbox://styles/mapbox/light-v11") ∧
  truthy (mapStyle resolvedTheme) = true.
Proof.
  assert (mapStyle resolvedTheme =
    (if decide (resolvedTheme = Some "dark")
     then JStr "mapbox://styles/mapbox/dark-v11"
     else if inherited (propertyKey resolvedTheme)
          then JBuiltin (propertyKey resolvedTheme)
          else JStr "mapbox://styles/mapbox/light-v11")) as Hcases.
  { destruct (decide (resolvedTheme = Some "dark")) as [-> | Hd]; [reflexivity|].
    destruct (inherited (propertyKey resolvedTheme)) eqn:Hi.
    - unfold inherited in Hi. apply bool_decide_eq_true in Hi.
      unfold ObjectPrototype in Hi.
      repeat (apply elem_of_cons in Hi as [Hi | Hi];
              [rewrite Hi; unfold mapStyle; rewrite Hi; reflexivity|]).
      by apply elem_of_nil in Hi.
    - by apply mapStyle_default. }
  split; [exact Hcases|]. rewrite Hcases.
  destruct (decide (resolvedTheme = Some "dark")); [reflexivity|].
  destruct (inherited (propertyKey resolvedTheme)); reflexivity.
Qed.

(** ** Colour ramps over a whole dataset *)

Section RampOrder.
Local Open Scope Q_scope.

(** X6. In a dataset of [n] records the feature at position [i] is painted,
    on the glow ramp and on the point ramp, at the fraction [i / n] of the
    way from the start colour to the end colour. *)
Theorem feature_painted_at_fraction
        (coords : list PhotoRecord) (i : nat) (r : PhotoRecord) :
  coords !! i = Some r →
  coloredAt (pointGlow (Some coords)) (toFeature i r)
            (ofIndex i / ofIndex (length coords)) ∧
  coloredAt (point (Some coords)) (toFeature i r)
            (ofIndex i / ofIndex (length coords)).
Proof.
  intros Hi. apply lookup_lt_Some in Hi.
  assert (0 <= ofIndex i) as H0.
  { unfold ofIndex. change 0 with (inject_Z 0). rewrite <- Zle_Qle. lia. }
  assert (ofIndex i < ofIndex (length coords)) as Hlt.
  { unfold ofIndex. rewrite <- Zlt_Qlt. lia. }
  split.
  - destruct (ramp_two_stops (ofIndex (length coords)) (ofIndex i)
                "#FF9900" "#00FFFF" _ _ (toFeature i r)
                eq_refl eq_refl H0 Hlt eq_refl) as (c & Hc & Hsame).
    exists c. do 2 eexists. split; [exact Hc|].
    split; [reflexivity|]. split; [reflexivity|]. exact Hsame.
  - destruct (ramp_two_stops (ofIndex (length coords)) (ofIndex i)
                "#FF6600" "#00CCFF" _ _ (toFeature i r)
                eq_refl eq_refl H0 Hlt eq_refl) as (c & Hc & Hsame).
    exists c. do 2 eexists. split; [exact Hc|].
    split; [reflexivity|]. split; [reflexivity|]. exact Hsame.
Qed.

Lemma feature_painted_at_fraction_witness :
  coloredAt (pointGlow scenario)
            (toFeature 1 {| rec_longitude := Some (12147 # 100);
                            rec_latitude := Some (3123 # 100);
                            rec_url := "b.jpg"; rec_blurData := None;
                            rec_width := 50; rec_height := 50 |})
            (ofIndex 1 / ofIndex 2) ∧
  coloredAt (point scenario)
            (toFeature 1 {| rec_longitude := Some (12147 # 100);
                            rec_latitude := Some (3123 # 100);
                            rec_url := "b.jpg"; rec_blurData := None;
                            rec_width := 50; rec_height := 50 |})
            (ofIndex 1 / ofIndex 2).
Proof.
  apply (feature_painted_at_fraction (default [] scenario) 1). reflexivity.
Defined.

Lemma index_fraction_lt (i j n : nat) :
  (i < j)%nat → (j < n)%nat →
  0 <= ofIndex i / ofIndex n ∧
  ofIndex i / ofIndex n < ofIndex j / ofIndex n ∧
  ofIndex j / ofIndex n < 1.
Proof.
  intros Hij Hjn.
  assert (0 < ofIndex n) as Hn.
  { unfold ofIndex. change 0 with (inject_Z 0). rewrite <- Zlt_Qlt. lia. }
  assert (0 <= ofIndex i) as Hi.
  { unfold ofIndex. change 0 with (inject_Z 0). rewrite <- Zle_Qle. lia. }
  assert (ofIndex i < ofIndex j) as Hlt.
  { unfold ofIndex. rewrite <- Zlt_Qlt. lia. }
  assert (ofIndex j < ofIndex n) as Hjn'.
  { unfold ofIndex. rewrite <- Zlt_Qlt. lia. }
  assert (0 < / ofIndex n) as Hinv by (by apply Qinv_lt_0_compat).
  split; [|split].
  - unfold Qdiv. apply Qmult_le_0_compat; [exact Hi | lra].
  - unfold Qdiv. by apply Qmult_lt_compat_r.
  - apply Qlt_shift_div_r; [exact Hn | lra].
Qed.

(** The channels of the two colours of a feature, as functions of its
    fraction [t = i / n]. *)
Lemma feature_channels (coords : list PhotoRecord) (i : nat) (r : PhotoRecord) :
  coords !! i = Some r →
  ∃ g p,
    colorOf (pointGlow (Some coords)) (toFeature i r) = Some g ∧
    colorOf (point (Some coords)) (toFeature i r) = Some p ∧
    sameColor g (color {| red := 255 # 255; green := 153 # 255;
                          blue := 0 # 255; alpha := 1 |}
                       {| red := 0 # 255; green := 255 # 255;
                          blue := 255 # 255; alpha := 1 |}
                       (ofIndex i / ofIndex (length coords))) ∧
    sameColor p (color {| red := 255 # 255; green := 102 # 255;
                          blue := 0 # 255; alpha := 1 |}
                       {| red := 0 # 255; green := 204 # 255;
                          blue := 255 # 255; alpha := 1 |}
                       (ofIndex i / ofIndex (length coords))).
Proof.
  intros Hi. apply lookup_lt_Some in Hi.
  assert (0 <= ofIndex i) as H0.
  { unfold ofIndex. change 0 with (inject_Z 0). rewrite <- Zle_Qle. lia. }
  assert (ofIndex i < ofIndex (length coords)) as Hlt.
  { unfold ofIndex. rewrite <- Zlt_Qlt. lia. }
  destruct (ramp_two_stops (ofIndex (length coords)) (ofIndex i)
              "#FF9900" "#00FFFF" _ _ (toFeature i r)
              eq_refl eq_refl H0 Hlt eq_refl) as (g & Hg & Hsg).
  destruct (ramp_two_stops (ofIndex (length coords)) (ofIndex i)
              "#FF6600" "#00CCFF" _ _ (toFeature i r)
              eq_refl eq_refl H0 Hlt eq_refl) as (p & Hp & Hsp).
  exists g, p. split; [exact Hg|]. split; [exact Hp|].
  split; [exact Hsg | exact Hsp].
Qed.

(** X7. The colours encode the order of the dataset: of two features the
    later one is, on both ramps, strictly less red, strictly more green and
    strictly more blue than the earlier one; so no two features share a
    colour.  No feature gets the end colour of a ramp: its blue channel stays
    strictly below the end colour's. *)
Theorem ramp_colors_ordered
        (coords : list PhotoRecord) (i j : nat) (ri rj : PhotoRecord) :
  coords !! i = Some ri → coords !! j = Some rj → (i < j)%nat →
  ∃ gi gj pi pj ge pe,
    colorOf (pointGlow (Some coords)) (toFeature i ri) = Some gi ∧
    colorOf (pointGlow (Some coords)) (toFeature j rj) = Some gj ∧
    colorOf (point (Some coords)) (toFeature i ri) = Some pi ∧
    colorOf (point (Some coords)) (toFeature j rj) = Some pj ∧
    endColor (pointGlow (Some coords)) = Some ge ∧
    endColor (point (Some coords)) = Some pe ∧
    red gj < red gi ∧ green gi < green gj ∧ blue gi < blue gj ∧
    red pj < red pi ∧ green pi < green pj ∧ blue pi < blue pj ∧
    blue gi < blue ge ∧ blue gj < blue ge ∧
    blue pi < blue pe ∧ blue pj < blue pe.
Proof.
  intros Hi Hj Hij.
  destruct (feature_channels coords i ri Hi) as (gi & pi & Hgi & Hpi & Sgi & Spi).
  destruct (feature_channels coords j rj Hj) as (gj & pj & Hgj & Hpj & Sgj & Spj).
  apply lookup_lt_Some in Hj.
  destruct (index_fraction_lt i j (length coords) Hij Hj) as (Ht0 & Htij & Ht1).
  exists gi, gj, pi, pj.
  exists {| red := 0 # 255; green := 255 # 255; blue := 255 # 255; alpha := 1 |}.
  exists {| red := 0 # 255; green := 204 # 255; blue := 255 # 255; alpha := 1 |}.
  split; [exact Hgi|]. split; [exact Hgj|].
  split; [exact Hpi|]. split; [exact Hpj|].
  split; [reflexivity|]. split; [reflexivity|].
  revert Sgi Spi Sgj Spj Ht0 Htij Ht1.
  generalize (ofIndex i / ofIndex (length coords)) as ti.
  generalize (ofIndex j / ofIndex (length coords)) as tj.
  intros tj ti.
  unfold sameColor, color, number; cbn [red green blue alpha].
  intros (? & ? & ? & _) (? & ? & ? & _) (? & ? & ? & _) (? & ? & ? & _) ? ? ?.
  repeat split; lra.
Qed.

Lemma ramp_colors_ordered_witness :
  ∃ gi gj pi pj ge pe,
    colorOf (pointGlow scenario) (toFeature 0 {| rec_longitude := Some (11638 # 100);
                              rec_latitude := Some (399 # 10);
                              rec_url := "a.jpg"; rec_blurData := None;
                              rec_width := 100; rec_height := 200 |}) = Some gi ∧
    colorOf (pointGlow scenario) (toFeature 1 {| rec_longitude := Some (12147 # 100);
                            rec_latitude := Some (3123 # 100);
                            rec_url := "b.jpg"; rec_blurData := None;
                            rec_width := 50; rec_height := 50 |}) = Some gj ∧
    colorOf (point scenario) (toFeature 0 {| rec_longitude := Some (11638 # 100);
                              rec_latitude := Some (399 # 10);
                              rec_url := "a.jpg"; rec_blurData := None;
                              rec_width := 100; rec_height := 200 |}) = Some pi ∧
    colorOf (point scenario) (toFeature 1 {| rec_longitude := Some (12147 # 100);
                            rec_latitude := Some (3123 # 100);
                            rec_url := "b.jpg"; rec_blurData := None;
                            rec_width := 50; rec_height := 50 |}) = Some pj ∧
    endColor (pointGlow scenario) = Some ge ∧
    endColor (point scenario) = Some pe ∧
    red gj < red gi ∧ green gi < green gj ∧ blue gi < blue gj ∧
    red pj < red pi ∧ green pi < green pj ∧ blue pi < blue pj ∧
    blue gi < blue ge ∧ blue gj < blue ge ∧
    blue pi < blue pe ∧ blue pj < blue pe.
Proof.
  apply (ramp_colors_ordered (default [] scenario) 0 1);
    [reflexivity | reflexivity | lia].
Defined.

(** X8. The colour ramps of the glow and point layers are accepted exactly
    for the datasets that have at least one record; their domain runs from 0
    to the size of the dataset whenever a dataset is there. *)
Theorem ramp_valid_iff_nonempty (coords : list PhotoRecord) :
  paintValid (pointGlow (Some coords)) = (0 <? length coords)%nat ∧
  paintValid (point (Some coords)) = (0 <? length coords)%nat ∧
  domain <$> circle_color (pointGlow (Some coords))
  = Some (Some (0, ofIndex (length coords))) ∧
  domain <$> circle_color (point (Some coords))
  = Some (Some (0, ofIndex (length coords))).
Proof.
  destruct coords as [| r rest]; [repeat split|].
  destruct (nonempty_dataset_ramp_valid (r :: rest)) as (Hg & Hp & Hdg & Hdp);
    [discriminate|].
  rewrite Hg, Hp. repeat split.
Qed.

End RampOrder.

(** ** Radii at every zoom level *)

Section RadiusEverywhere.
Local Open Scope Q_scope.

(** A radius ramp from [a] at zoom 0 to [b] at zoom 22 at any zoom: [a] up
    to zoom 0, [b] from zoom 22 on, the straight line in between. *)
Lemma zoom_ramp_cases (a b z : Q) :
  ∃ r, evalNumber {| input := Zoom; stops := [(0, a); (22, b)] |} z None = Some r ∧
       ((z <= 0 ∧ r == a) ∨ (22 <= z ∧ r == b) ∨
        (0 < z ∧ z < 22 ∧ r == a + (b - a) * z * (1 # 22))).
Proof.
  unfold evalNumber, evaluate. cbn.
  destruct (Qle_bool z 0) eqn:Ez; [|destruct (Qle_bool 22 z) eqn:Et].
  - apply Qle_bool_iff in Ez. exists a. split; [reflexivity|]. left. split; [exact Ez|reflexivity].
  - apply Qle_bool_iff in Et. exists b. split; [reflexivity|].
    right; left. split; [exact Et|reflexivity].
  - eexists. split; [reflexivity|]. right; right.
    assert (0 < z) as Hz.
    { apply Qnot_le_lt. intros H. apply Qle_bool_iff in H. congruence. }
    assert (z < 22) as Hz'.
    { apply Qnot_le_lt. intros H. apply Qle_bool_iff in H. congruence. }
    split; [exact Hz|]. split; [exact Hz'|].
    unfold number, interpolationFactor.
    change (Qeq_bool (22 - 0) 0) with false. cbv iota. field.
Qed.

Lemma zoom_ramp_monotone (a b z1 z2 : Q) :
  a <= b → z1 <= z2 →
  ∃ r1 r2,
    evalNumber {| input := Zoom; stops := [(0, a); (22, b)] |} z1 None = Some r1 ∧
    evalNumber {| input := Zoom; stops := [(0, a); (22, b)] |} z2 None = Some r2 ∧
    r1 <= r2 ∧ a <= r1 ∧ r2 <= b ∧
    (z2 <= 0 → r2 == a) ∧ (22 <= z1 → r1 == b).
Proof.
  intros Hab Hz.
  destruct (zoom_ramp_cases a b z1) as (r1 & E1 & C1).
  destruct (zoom_ramp_cases a b z2) as (r2 & E2 & C2).
  exists r1, r2. split; [exact E1|]. split; [exact E2|].
  assert (0 <= b - a) as Hd by lra.
  destruct C1 as [(? & R1) | [(? & R1) | (? & ? & R1)]];
    destruct C2 as [(? & R2) | [(? & R2) | (? & ? & R2)]];
    rewrite R1, R2; repeat split; intros; try nra; try lra.
Qed.

(** X9. At every zoom level, also outside 0 to 22, each radius stays between
    the two outputs of its ramp (hit target 10 to 30, glow 5 to 20, point 3
    to 12), and the three are strictly ordered: the point is smaller than
    its glow, and the glow smaller than the hit target. *)
Theorem radius_bounds_order (coordinates : option (list PhotoRecord)) (z : Q) :
  ∃ h g p,
    radiusAt pointHitbox z = Some h ∧
    radiusAt (pointGlow coordinates) z = Some g ∧
    radiusAt (point coordinates) z = Some p ∧
    10 <= h ∧ h <= 30 ∧ 5 <= g ∧ g <= 20 ∧ 3 <= p ∧ p <= 12 ∧
    p < g ∧ g < h.
Proof.
  destruct (zoom_ramp_cases 10 30 z) as (h & Eh & Ch).
  destruct (zoom_ramp_cases 5 20 z) as (g & Eg & Cg).
  destruct (zoom_ramp_cases 3 12 z) as (p & Ep & Cp).
  exists h, g, p. unfold radiusAt; simpl circle_radius.
  split; [exact Eh|]. split; [exact Eg|]. split; [exact Ep|].
  destruct Ch as [(? & Rh) | [(? & Rh) | (? & ? & Rh)]];
    destruct Cg as [(? & Rg) | [(? & Rg) | (? & ? & Rg)]];
    destruct Cp as [(? & Rp) | [(? & Rp) | (? & ? & Rp)]];
    repeat split; lra.
Qed.

(** X10. The radii do not decrease with the zoom on the whole zoom axis, and
    they are constant outside the ramps: at or below zoom 0 they are 10, 5
    and 3, at or above zoom 22 they are 30, 20 and 12. *)
Theorem radius_monotone_everywhere
        (coordinates : option (list PhotoRecord)) (z1 z2 : Q) :
  z1 <= z2 →
  ∃ h1 g1 p1 h2 g2 p2,
    radiusAt pointHitbox z1 = Some h1 ∧
    radiusAt (pointGlow coordinates) z1 = Some g1 ∧
    radiusAt (point coordinates) z1 = Some p1 ∧
    radiusAt pointHitbox z2 = Some h2 ∧
    radiusAt (pointGlow coordinates) z2 = Some g2 ∧
    radiusAt (point coordinates) z2 = Some p2 ∧
    h1 <= h2 ∧ g1 <= g2 ∧ p1 <= p2 ∧
    (z2 <= 0 → h2 == 10 ∧ g2 == 5 ∧ p2 == 3) ∧
    (22 <= z1 → h1 == 30 ∧ g1 == 20 ∧ p1 == 12).
Proof.
  intros Hz.
  destruct (zoom_ramp_monotone 10 30 z1 z2) as (h1 & h2 & Eh1 & Eh2 & Hh & _ & _ & Lh & Uh);
    [lra | exact Hz |].
  destruct (zoom_ramp_monotone 5 20 z1 z2) as (g1 & g2 & Eg1 & Eg2 & Hg & _ & _ & Lg & Ug);
    [lra | exact Hz |].
  destruct (zoom_ramp_monotone 3 12 z1 z2) as (p1 & p2 & Ep1 & Ep2 & Hp & _ & _ & Lp & Up);
    [lra | exact Hz |].
  exists h1, g1, p1, h2, g2, p2. unfold radiusAt; simpl circle_radius.
  repeat (split; [assumption|]). split; intros H; auto.
Qed.

Lemma radius_monotone_everywhere_witness :
  ∃ h1 g1 p1 h2 g2 p2,
    radiusAt pointHitbox (-1) = Some h1 ∧
    radiusAt (pointGlow scenario) (-1) = Some g1 ∧
    radiusAt (point scenario) (-1) = Some p1 ∧
    radiusAt pointHitbox 25 = Some h2 ∧
    radiusAt (pointGlow scenario) 25 = Some g2 ∧
    radiusAt (point scenario) 25 = Some p2 ∧
    h1 <= h2 ∧ g1 <= g2 ∧ p1 <= p2 ∧
    (25 <= 0 → h2 == 10 ∧ g2 == 5 ∧ p2 == 3) ∧
    (22 <= -1 → h1 == 30 ∧ g1 == 20 ∧ p1 == 12).
Proof.
  apply (radius_monotone_everywhere scenario (-1) 25).
  unfold Qle; simpl; lia.
Defined.

End RadiusEverywhere.

(** ** The theme effect during the component's lifetime *)

Lemma themeCleanup_reads (c : ThemeCleanup) (root : style) (name : string) :
  getPropertyValue (themeCleanup c root) name
  = if decide (name = "--foreground") then originalForeground c
    else if decide (name = "--background") then originalBackground c
    else getPropertyValue root name.
Proof.
  unfold themeCleanup. rewrite !getPropertyValue_setProperty.
  repeat (destruct (decide _); try congruence).
Qed.

Lemma themeEffect_reads (theme : option string) (root : style) (name : string) :
  getPropertyValue (themeEffect theme root).1 name
  = if decide (name = "--background") then (themePair theme).1
    else if decide (name = "--foreground") then (themePair theme).2
    else getPropertyValue root name.
Proof.
  unfold themeEffect, themePair; simpl.
  destruct (decide (theme = Some "dark")); simpl;
    rewrite !getPropertyValue_setProperty;
    repeat (destruct (decide _); try congruence).
Qed.

Lemma themeMounted_inv (root0 : style) (later : list (option string)) :
  ∀ current c root,
    mountedInv root0 (current, c, root) →
    mountedInv root0 (themeMounted current c later root) ∧
    (themeMounted current c later root).1.1 = default current (last later).
Proof.
  induction later as [| t rest IH]; intros current c root Hinv; simpl.
  - split; [exact Hinv | reflexivity].
  - assert (default current (last (t :: rest)) = default t (last rest)) as Hlast.
    { rewrite last_cons. destruct (last rest); reflexivity. }
    rewrite Hlast.
    destruct (decide (t = current)) as [-> | Hne]; [by apply IH|].
    apply IH. destruct Hinv as [Hc Hread]; simpl in Hc, Hread.
    assert (∀ name, getPropertyValue (themeCleanup c root) name
                    = getPropertyValue root0 name) as Hclean.
    { intros name. rewrite themeCleanup_reads, Hread, Hc; simpl.
      repeat (destruct (decide _); try congruence). }
    split; simpl.
    + by rewrite !Hclean.
    + intros name.
      etrans; [apply (themeEffect_reads t (themeCleanup c root))|].
      rewrite Hclean. reflexivity.
Qed.

Lemma themeUpdates_mounted (later : list (option string)) :
  ∀ current c root,
    themeUpdates current c later root
    = themeCleanup (themeMounted current c later root).1.2
                   (themeMounted current c later root).2.
Proof.
  induction later as [| t rest IH]; intros current c root; simpl; [reflexivity|].
  destruct (decide (t = current)); apply IH.
Qed.

(** X11. While the component is mounted, after any number of renders with
    any themes, the two variables hold the pair of colours of the theme of
    the last render (the dark pair for ["dark"], the light pair for every
    other theme and for [undefined]), every other property of the root
    reads as it did before the component was mounted, and the pending
    cleanup still holds the two values from before the mount.  Unmounting
    runs that cleanup. *)
Theorem theme_while_mounted
        (resolvedTheme : option string) (later : list (option string))
        (root : style) (name : string) :
  (themeRendered resolvedTheme later root).1.1
  = default resolvedTheme (last later) ∧
  (themeRendered resolvedTheme later root).1.2
  = {| originalBackground := getPropertyValue root "--background";
       originalForeground := getPropertyValue root "--foreground" |} ∧
  getPropertyValue (themeRendered resolvedTheme later root).2 name
  = (if decide (name = "--background")
     then (themePair (default resolvedTheme (last later))).1
     else if decide (name = "--foreground")
          then (themePair (default resolvedTheme (last later))).2
          else getPropertyValue root name) ∧
  themeLifetime resolvedTheme later root
  = themeCleanup (themeRendered resolvedTheme later root).1.2
                 (themeRendered resolvedTheme later root).2.
Proof.
  unfold themeRendered, themeLifetime.
  destruct (themeMounted_inv root later resolvedTheme
              (themeEffect resolvedTheme root).2 (themeEffect resolvedTheme root).1)
    as ((Hc & Hread) & Hcur).
  { split; [reflexivity|]. intros n. apply themeEffect_reads. }
  split; [exact Hcur|]. split; [exact Hc|]. split.
  - rewrite Hread, Hcur. reflexivity.
  - apply themeUpdates_mounted.
Qed.

(** ** Language control over a lifetime *)

Lemma attachments_addControl (m : Surface) (c : Control) :
  attachments (addControl m c) = S (attachments m).
Proof. unfold attachments, addControl; simpl. rewrite length_app; simpl. lia. Qed.

Lemma rerender_grows (later : list string) :
  ∀ current m, (attachments m ≤ attachments (rerender current later m))%nat.
Proof.
  induction later as [| l rest IH]; intros current m; simpl; [lia|].
  destruct (decide (l = current)); [apply IH|].
  unfold mapRef. destruct (decide (l = "zh")); [|apply IH].
  etrans; [|apply IH]. rewrite attachments_addControl. lia.
Qed.

Lemma rerender_without_zh (later : list string) :
  ∀ current m, "zh" ∉ later → rerender current later m = m.
Proof.
  induction later as [| l rest IH]; intros current m Hzh; simpl; [reflexivity|].
  apply not_elem_of_cons in Hzh as [Hl Hrest].
  destruct (decide (l = current)); [by apply IH|].
  unfold mapRef. destruct (decide (l = "zh")); [congruence|by apply IH].
Qed.

Lemma rerender_with_zh (later : list string) :
  ∀ current m,
    "zh" ∈ later → (current = "zh" → 1 ≤ attachments m)%nat →
    (1 ≤ attachments (rerender current later m))%nat.
Proof.
  induction later as [| l rest IH]; intros current m Hzh Hcur; simpl.
  - by apply elem_of_nil in Hzh.
  - apply elem_of_cons in Hzh as [Hl | Hrest].
    + subst l. destruct (decide ("zh" = current)) as [<- | Hne].
      * etrans; [|apply rerender_grows]. by apply Hcur.
      * unfold mapRef. destruct (decide ("zh" = "zh")); [|congruence].
        etrans; [|apply rerender_grows]. rewrite attachments_addControl. lia.
    + destruct (decide (l = current)) as [-> | Hne]; [by apply IH|].
      unfold mapRef. destruct (decide (l = "zh")) as [-> | Hl].
      * etrans; [|apply rerender_grows]. rewrite attachments_addControl. lia.
      * apply IH; [exact Hrest | congruence].
Qed.

Lemma rerender_at_most (later : list string) :
  ∀ current m,
    (attachments (rerender current later m)
     ≤ attachments m + length (filter (λ l, l = "zh") later))%nat.
Proof.
  induction later as [| l rest IH]; intros current m; simpl; [lia|].
  rewrite filter_cons.
  destruct (decide (l = current)).
  - etrans; [apply IH|]. destruct (decide (l = "zh")); simpl; lia.
  - unfold mapRef. destruct (decide (l = "zh")).
    + etrans; [apply IH|]. rewrite attachments_addControl. simpl. lia.
    + apply IH.
Qed.

(** X12. Over the lifetime of one map, with the locale of its first render
    and the locales of its later renders: when no render has the locale
    ["zh"] no language control is attached; when at least one render has it
    at least one control is attached; and there are never more controls than
    renders with the locale ["zh"]. *)
Theorem language_control_iff_zh_seen (locale : string) (later : list string) :
  ("zh" ∉ locale :: later → attachments (surfaceLifetime locale later) = 0%nat) ∧
  ("zh" ∈ locale :: later → 1 ≤ attachments (surfaceLifetime locale later))%nat ∧
  (attachments (surfaceLifetime locale later)
   ≤ length (filter (λ l, l = "zh") (locale :: later)))%nat.
Proof.
  unfold surfaceLifetime, mapRef. repeat apply conj.
  - intros Hzh. apply not_elem_of_cons in Hzh as [Hl Hrest].
    destruct (decide (locale = "zh")); [congruence|].
    by rewrite rerender_without_zh.
  - intros Hzh. destruct (decide (locale = "zh")) as [-> | Hl].
    + etrans; [|apply rerender_grows]. rewrite attachments_addControl. lia.
    + apply elem_of_cons in Hzh as [Heq | Hrest]; [congruence|].
      apply rerender_with_zh; [exact Hrest | congruence].
  - rewrite filter_cons. destruct (decide (locale = "zh")).
    + etrans; [apply rerender_at_most|]. rewrite attachments_addControl.
      simpl. lia.
    + etrans; [apply rerender_at_most|]. simpl. lia.
Qed.

Lemma language_control_iff_zh_seen_witness :
  attachments (surfaceLifetime "en" ["fr"; "en"]) = 0%nat ∧
  (1 ≤ attachments (surfaceLifetime "en" ["zh"; "en"]))%nat.
Proof.
  split.
  - apply (proj1 (language_control_iff_zh_seen "en" ["fr"; "en"])).
    intros H. repeat (apply elem_of_cons in H as [H | H]; [discriminate|]).
    by apply elem_of_nil in H.
  - apply (proj1 (proj2 (language_control_iff_zh_seen "en" ["zh"; "en"]))).
    right. left.
Defined.
